(** * Sample-size calculators of [flock_ml.analysis.experimentation]

    A shallow embedding of the two functions of
    [flock_ml/analysis/experimentation.py]:

    - [get_t_test_group_size_with_pairwise_correction]
    - [get_proportion_test_group_size_with_pairwise_correction]

    Python floats are idealised: finite values are exact real numbers and
    the three IEEE special values ([+inf], [-inf], [nan]) are kept, because
    the source reaches them (division by a zero [delta], [norm.ppf] at and
    beyond the ends of its domain) and they decide which exception the
    final [int(...)] conversion raises.  The float arguments of the two
    functions are finite reals, [n_groups] is an integer.  Rounding,
    overflow and underflow of finite values and signed zeros are not
    modelled.

    The binary64 program differs from this reading where a finite value
    rounds, overflows or underflows: [1 - adjusted_alpha / 2] rounds to 1
    for a very small [alpha], [delta ** 2] underflows to 0 or overflows,
    a quotient underflows to 0.  Lemmas that evaluate a call
    ([mean_returns], [proportion_returns] and the like) are about the
    exact reading.  The theorems about the program are of three kinds,
    none of which depends on it: which exception is raised and when an
    assertion fails (comparisons are exact); properties of the value of a
    call that is assumed to return, which follow from the way the
    operations are composed (a rounded operation is still monotone and
    keeps the sign); and the value at arguments where the result is far
    from an integer. *)

From Stdlib Require Import Reals ZArith Lra Lia Psatz Bool.

Open Scope R_scope.

(** ** Idealised floats *)

Inductive xfloat : Type :=
| Fin (r : R)
| PInf
| NInf
| NaN.

Declare Scope xfloat_scope.
Delimit Scope xfloat_scope with xf.
Bind Scope xfloat_scope with xfloat.

(** Sign of a real, as the three-way test the IEEE tables need. *)
Inductive sign : Type := Neg | Zero | Pos.

Definition Rsign (r : R) : sign :=
  match total_order_T r 0 with
  | inleft (left _) => Neg
  | inleft (right _) => Zero
  | inright _ => Pos
  end.

Definition Fopp (x : xfloat) : xfloat :=
  match x with
  | Fin r => Fin (- r)
  | PInf => NInf
  | NInf => PInf
  | NaN => NaN
  end.

Definition Fadd (x y : xfloat) : xfloat :=
  match x, y with
  | NaN, _ | _, NaN => NaN
  | Fin a, Fin b => Fin (a + b)
  | PInf, NInf | NInf, PInf => NaN
  | PInf, _ | _, PInf => PInf
  | NInf, _ | _, NInf => NInf
  end.

Definition Fsub (x y : xfloat) : xfloat := Fadd x (Fopp y).

(** An infinity scaled by a real of the given sign. *)
Definition scale_inf (positive : bool) (s : sign) : xfloat :=
  match s with
  | Zero => NaN
  | Pos => if positive then PInf else NInf
  | Neg => if positive then NInf else PInf
  end.

Definition Fmul (x y : xfloat) : xfloat :=
  match x, y with
  | NaN, _ | _, NaN => NaN
  | Fin a, Fin b => Fin (a * b)
  | Fin a, PInf | PInf, Fin a => scale_inf true (Rsign a)
  | Fin a, NInf | NInf, Fin a => scale_inf false (Rsign a)
  | PInf, PInf | NInf, NInf => PInf
  | PInf, NInf | NInf, PInf => NInf
  end.

(** NumPy division: a finite non-zero value over zero is an infinity (with
    a warning, not an exception), zero over zero is [nan]. *)
Definition Fdiv (x y : xfloat) : xfloat :=
  match x, y with
  | NaN, _ | _, NaN => NaN
  | Fin a, Fin b =>
      match Rsign b with
      | Zero => match Rsign a with
                | Zero => NaN
                | Pos => PInf
                | Neg => NInf
                end
      | _ => Fin (a / b)
      end
  | Fin _, (PInf | NInf) => Fin 0
  | PInf, Fin b => match Rsign b with Neg => NInf | _ => PInf end
  | NInf, Fin b => match Rsign b with Neg => PInf | _ => NInf end
  | (PInf | NInf), (PInf | NInf) => NaN
  end.

(** [x ** 2] *)
Definition Fsqr (x : xfloat) : xfloat :=
  match x with
  | Fin r => Fin (r * r)
  | PInf | NInf => PInf
  | NaN => NaN
  end.

(** [np.sqrt] *)
Definition Fsqrt (x : xfloat) : xfloat :=
  match x with
  | Fin r => match Rsign r with Neg => NaN | _ => Fin (sqrt r) end
  | PInf => PInf
  | NInf | NaN => NaN
  end.

(** [np.abs] *)
Definition Fabs (x : xfloat) : xfloat :=
  match x with
  | Fin r => Fin (Rabs r)
  | PInf | NInf => PInf
  | NaN => NaN
  end.

Infix "+" := Fadd : xfloat_scope.
Infix "-" := Fsub : xfloat_scope.
Infix "*" := Fmul : xfloat_scope.
Infix "/" := Fdiv : xfloat_scope.

(** Comparison of two real arguments, as a boolean. *)
Definition Rltb (a b : R) : bool := if Rlt_dec a b then true else false.

(** ** Rounding up and conversion to [int] *)

(** The least integer not below [r]. *)
Definition Rceil (r : R) : Z := (1 - up (- r))%Z.

(** Truncation toward zero. *)
Definition Rtrunc (r : R) : Z :=
  if Rlt_dec r 0 then Rceil r else (up r - 1)%Z.

(** [np.ceil] keeps the special values. *)
Definition np_ceil (x : xfloat) : xfloat :=
  match x with
  | Fin r => Fin (IZR (Rceil r))
  | _ => x
  end.

Inductive exn : Type := AssertionError | OverflowError | ValueError.

Inductive result : Type :=
| Ok (n : Z)
| Raise (e : exn).

(** [int(x)]: an infinity raises [OverflowError], a [nan] raises
    [ValueError]. *)
Definition py_int (x : xfloat) : result :=
  match x with
  | Fin r => Ok (Rtrunc r)
  | PInf | NInf => Raise OverflowError
  | NaN => Raise ValueError
  end.

(** [assert c; k] *)
Definition assert (c : bool) (k : result) : result :=
  if c then k else Raise AssertionError.

Notation "'assert!' c ';;' k" := (assert c k)
  (at level 10, c at level 99, k at level 200).

(** ** Library functions the source imports *)

(** Binomial coefficients by Pascal's rule. *)
Fixpoint binom (n k : nat) : nat :=
  match n, k with
  | _, O => 1
  | O, S _ => 0
  | S n', S k' => binom n' k' + binom n' (S k')
  end.

(** Modelled from the spec: [scipy.special.comb] is not part of the
    repository; it is "the number of combinations of N things taken k at a
    time", returned as a float, and 0 outside [0 <= k <= N]. *)
Definition comb (N k : Z) : xfloat :=
  if ((k <=? N) && (0 <=? N) && (0 <=? k))%Z
  then Fin (INR (binom (Z.to_nat N) (Z.to_nat k)))
  else Fin 0.

(** A piecewise-linear interpolation of the standard normal table: convex
    above 1/2, continued below 1/2 by oddness. *)
Definition ndtri_upper (p : R) : R :=
  Rmax ((84162 / 30000) * (p - 1 / 2))
    (Rmax (84162 / 100000 + (111834 / 17500) * (p - 8 / 10))
       (Rmax (195996 / 100000 + (33041 / 1400) * (p - 975 / 1000))
          (Rmax (229037 / 100000 + (28546 / 600) * (p - 989 / 1000))
             (257583 / 100000 + (74916 / 1000) * (p - 995 / 1000))))).

Definition ndtri_table (p : R) : R :=
  if Rlt_dec p (1 / 2) then - ndtri_upper (1 - p) else ndtri_upper p.

(** The number of unordered pairs among [n] groups, [n (n - 1) / 2]. *)
Definition pairwise_count (n : Z) : R := IZR (n * (n - 1) / 2).

Section Experimentation.

(** The standard-normal quantile function on the open interval (0,1).
    [scipy.stats.norm] is not part of the repository, so the function is a
    parameter; what the theorems need of it is stated where it is needed
    (see [normal_quantile] and [normal_table]). *)
Variable ndtri : R -> R.

(** [norm.ppf]: the quantile inside (0,1), the infinities at the two ends,
    [nan] everywhere else. *)
Definition norm_ppf (q : xfloat) : xfloat :=
  match q with
  | Fin r =>
      if Rltb 0 r && Rltb r 1 then Fin (ndtri r)
      else if Req_dec_T r 0 then NInf
      else if Req_dec_T r 1 then PInf
      else NaN
  | _ => NaN
  end.

(** ** The two functions of the source *)

Definition get_t_test_group_size_with_pairwise_correction
  (variance delta alpha power : R) (n_groups : Z) : result :=
  assert! Rltb 0 variance ;;
  assert! Rltb 0 alpha && Rltb alpha 1 ;;
  assert! Rltb alpha power && Rltb power 1 ;;
  assert! (2 <=? n_groups)%Z ;;
  let adjusted_alpha := (Fin alpha / comb n_groups 2)%xf in
  let group_size :=
    (((Fin 2 * Fin variance)
      * Fsqr (norm_ppf (Fin 1 - adjusted_alpha / Fin 2) + norm_ppf (Fin power)))
     / Fsqr (Fin delta))%xf in
  py_int (np_ceil group_size).

Definition get_proportion_test_group_size_with_pairwise_correction
  (p1 p2 alpha power : R) (n_groups : Z) : result :=
  assert! Rltb 0 p1 && Rltb p1 1 ;;
  assert! Rltb 0 p2 && Rltb p2 1 ;;
  assert! Rltb alpha power && Rltb power 1 ;;
  assert! (2 <=? n_groups)%Z ;;
  let adjusted_alpha := (Fin alpha / comb n_groups 2)%xf in
  let pbar := ((Fin p1 + Fin p2) / Fin 2)%xf in
  let qbar := (Fin 1 - pbar)%xf in
  let delta := Fabs (Fin p2 - Fin p1) in
  let group_size :=
    Fsqr
      ((norm_ppf (Fin 1 - adjusted_alpha / Fin 2) * Fsqrt (Fin 2 * pbar * qbar)
        + norm_ppf (Fin power)
          * Fsqrt (Fin p1 * (Fin 1 - Fin p1) + Fin p2 * (Fin 1 - Fin p2)))
       / delta)%xf in
  py_int (np_ceil group_size).

(** What the assertions of the two functions check. *)
Definition mean_preconditions (variance alpha power : R) (n_groups : Z) : Prop :=
  0 < variance /\ 0 < alpha < 1 /\ alpha < power < 1 /\ (2 <= n_groups)%Z.

Definition proportion_preconditions
  (p1 p2 alpha power : R) (n_groups : Z) : Prop :=
  0 < p1 < 1 /\ 0 < p2 < 1 /\ alpha < power < 1 /\ (2 <= n_groups)%Z.

(** What is assumed of the quantile function: it is strictly increasing on
    (0,1) and odd about 1/2. *)
Record normal_quantile : Prop := {
  ndtri_incr : forall p q, 0 < p -> p < q -> q < 1 -> ndtri p < ndtri q;
  ndtri_odd : forall p, 0 < p < 1 -> ndtri (1 - p) = - ndtri p
}.

(** Entries of the standard normal table, to four decimal places. *)
Record normal_table : Prop := {
  table_800 : 8416 / 10000 < ndtri (8 / 10) < 8417 / 10000;
  table_975 : 19599 / 10000 < ndtri (975 / 1000) < 19600 / 10000;
  table_239_240 : 26382 / 10000 < ndtri (239 / 240) < 26383 / 10000;
  table_995 : 25758 / 10000 < ndtri (995 / 1000) < 25759 / 10000;
  table_011 : - (22904 / 10000) < ndtri (11 / 1000) < - (22903 / 10000)
}.

(** The two quantiles of a call. *)
Definition z_alpha (alpha : R) (n_groups : Z) : R :=
  ndtri (1 - alpha / pairwise_count n_groups / 2).

Definition z_power (power : R) : R := ndtri power.

(** The two standard deviations of the proportion test. *)
Definition pooled_sd (p1 p2 : R) : R :=
  sqrt (2 * ((p1 + p2) / 2) * (1 - (p1 + p2) / 2)).

Definition unpooled_sd (p1 p2 : R) : R :=
  sqrt (p1 * (1 - p1) + p2 * (1 - p2)).

(** ** Facts about the arithmetic *)

Lemma Rltb_true (a b : R) : a < b -> Rltb a b = true.
Proof. intros H. unfold Rltb. destruct (Rlt_dec a b); [reflexivity | contradiction]. Qed.

Lemma Rltb_false (a b : R) : ~ a < b -> Rltb a b = false.
Proof. intros H. unfold Rltb. destruct (Rlt_dec a b); [contradiction | reflexivity]. Qed.

Lemma Rltb_iff (a b : R) : Rltb a b = true <-> a < b.
Proof.
  unfold Rltb. destruct (Rlt_dec a b); split; intros; try assumption;
    try reflexivity; try discriminate; contradiction.
Qed.

Lemma Rsign_pos (r : R) : 0 < r -> Rsign r = Pos.
Proof.
  intros H. unfold Rsign. destruct (total_order_T r 0) as [[Hlt | Heq] | Hgt];
    try reflexivity; lra.
Qed.

Lemma Rsign_neg (r : R) : r < 0 -> Rsign r = Neg.
Proof.
  intros H. unfold Rsign. destruct (total_order_T r 0) as [[Hlt | Heq] | Hgt];
    try reflexivity; lra.
Qed.

Lemma Rsign_zero : Rsign 0 = Zero.
Proof.
  unfold Rsign. destruct (total_order_T 0 0) as [[Hlt | Heq] | Hgt];
    try reflexivity; lra.
Qed.

Lemma Fdiv_fin (a b : R) : b <> 0 -> (Fin a / Fin b)%xf = Fin (a / b).
Proof.
  intros H. simpl. unfold Rsign.
  destruct (total_order_T b 0) as [[Hlt | Heq] | Hgt]; try reflexivity; contradiction.
Qed.

Lemma Fsqrt_fin (r : R) : 0 <= r -> Fsqrt (Fin r) = Fin (sqrt r).
Proof.
  intros H. simpl. unfold Rsign.
  destruct (total_order_T r 0) as [[Hlt | Heq] | Hgt]; try reflexivity; lra.
Qed.

Lemma Rceil_spec (r : R) : IZR (Rceil r) - 1 < r <= IZR (Rceil r).
Proof.
  unfold Rceil. rewrite minus_IZR. destruct (archimed (- r)) as [H1 H2]. lra.
Qed.

Lemma Rceil_unique (r : R) (z : Z) : IZR z - 1 < r <= IZR z -> Rceil r = z.
Proof.
  intros [H1 H2]. destruct (Rceil_spec r) as [H3 H4].
  assert (Ha : (Rceil r < z + 1)%Z) by (apply lt_IZR; rewrite plus_IZR; lra).
  assert (Hb : (z < Rceil r + 1)%Z) by (apply lt_IZR; rewrite plus_IZR; lra).
  lia.
Qed.

Lemma Rceil_IZR (z : Z) : Rceil (IZR z) = z.
Proof. apply Rceil_unique. lra. Qed.

Lemma Rceil_le (a b : R) : a <= b -> (Rceil a <= Rceil b)%Z.
Proof.
  intros H. destruct (Rceil_spec a) as [H1 _]. destruct (Rceil_spec b) as [_ H2].
  assert (Hc : (Rceil a < Rceil b + 1)%Z) by (apply lt_IZR; rewrite plus_IZR; lra).
  lia.
Qed.

Lemma Rceil_pos (r : R) : 0 < r -> (1 <= Rceil r)%Z.
Proof.
  intros H. destruct (Rceil_spec r) as [_ H2].
  assert (Hc : (0 < Rceil r)%Z) by (apply lt_IZR; lra).
  lia.
Qed.

Lemma Rceil_gt (r : R) (z : Z) : IZR z < r -> (z < Rceil r)%Z.
Proof.
  intros H. destruct (Rceil_spec r) as [_ H2]. apply lt_IZR. lra.
Qed.

Lemma Rtrunc_IZR (z : Z) : Rtrunc (IZR z) = z.
Proof.
  unfold Rtrunc. destruct (Rlt_dec (IZR z) 0).
  - apply Rceil_IZR.
  - assert (H : up (IZR z) = (z + 1)%Z).
    { symmetry. apply tech_up; rewrite plus_IZR; lra. }
    rewrite H. lia.
Qed.

(** [int(np.ceil(x))] of a finite [x] is the ceiling of [x]. *)
Lemma py_int_np_ceil (r : R) : py_int (np_ceil (Fin r)) = Ok (Rceil r).
Proof. simpl. now rewrite Rtrunc_IZR. Qed.

Lemma binom_1 (n : nat) : binom n 1 = n.
Proof.
  induction n as [| n IH]; [reflexivity |].
  cbn [binom]. rewrite IH. destruct n; reflexivity.
Qed.

Lemma binom_2 (n : nat) : (2 * binom n 2 = n * (n - 1))%nat.
Proof.
  induction n as [| n IH]; [reflexivity |].
  change (binom (S n) 2) with (binom n 1 + binom n 2)%nat.
  rewrite binom_1. destruct n as [| m]; [reflexivity |].
  replace (S (S m) - 1)%nat with (S m) by lia.
  replace (S m - 1)%nat with m in IH by lia. nia.
Qed.

Lemma comb_2 (n : Z) : (2 <= n)%Z -> comb n 2 = Fin (pairwise_count n).
Proof.
  intros H. unfold comb, pairwise_count.
  replace ((2 <=? n)%Z && (0 <=? n)%Z && (0 <=? 2)%Z) with true
    by (symmetry; rewrite !andb_true_iff, !Z.leb_le; lia).
  f_equal. rewrite INR_IZR_INZ. f_equal.
  change (Z.to_nat 2) with 2%nat.
  pose proof (binom_2 (Z.to_nat n)) as Hb.
  assert (Hz : (2 * Z.of_nat (binom (Z.to_nat n) 2) = n * (n - 1))%Z).
  { replace (n * (n - 1))%Z
      with (Z.of_nat (Z.to_nat n * (Z.to_nat n - 1))%nat) by lia.
    rewrite <- Hb. lia. }
  rewrite <- Hz, (Z.mul_comm 2), Z.div_mul; lia.
Qed.

Lemma pairwise_count_ge_1 (n : Z) : (2 <= n)%Z -> 1 <= pairwise_count n.
Proof.
  intros H. unfold pairwise_count. apply IZR_le.
  apply Z.div_le_lower_bound; [lia |].
  assert (Hn : (2 * 1 <= n * (n - 1))%Z) by (apply Z.mul_le_mono_nonneg; lia).
  lia.
Qed.

Lemma pairwise_count_le (n m : Z) :
  (2 <= n)%Z -> (n <= m)%Z -> pairwise_count n <= pairwise_count m.
Proof.
  intros H1 H2. unfold pairwise_count. apply IZR_le.
  apply Z.div_le_mono; [lia |].
  apply Z.mul_le_mono_nonneg; lia.
Qed.

(** ** Evaluating the two functions *)

Lemma Rdiv_ge_1_bounds (a c : R) : 0 < a -> 1 <= c -> 0 < a / c <= a.
Proof.
  intros Ha Hc.
  assert (Hi : 0 < / c) by (apply Rinv_0_lt_compat; lra).
  assert (Hi1 : / c <= 1).
  { rewrite <- Rinv_1. apply Rinv_le_contravar; lra. }
  unfold Rdiv. nra.
Qed.

Lemma norm_ppf_fin (q : R) : 0 < q < 1 -> norm_ppf (Fin q) = Fin (ndtri q).
Proof.
  intros [H0 H1]. unfold norm_ppf.
  now rewrite (Rltb_true 0 q H0), (Rltb_true q 1 H1).
Qed.

Lemma norm_ppf_one : norm_ppf (Fin 1) = PInf.
Proof.
  unfold norm_ppf. rewrite (Rltb_false 1 1) by lra.
  rewrite andb_false_r.
  destruct (Req_dec_T 1 0) as [H | _]; [lra |].
  destruct (Req_dec_T 1 1) as [_ | H]; [reflexivity | lra].
Qed.

Lemma norm_ppf_above_one (q : R) : 1 < q -> norm_ppf (Fin q) = NaN.
Proof.
  intros H. unfold norm_ppf. rewrite (Rltb_false q 1) by lra.
  rewrite andb_false_r.
  destruct (Req_dec_T q 0) as [H0 | _]; [lra |].
  destruct (Req_dec_T q 1) as [H1 | _]; [lra | reflexivity].
Qed.

(** Once its assertions pass, the first function is one division. *)
Lemma mean_after_assertions (variance delta alpha power : R) (n_groups : Z) :
  mean_preconditions variance alpha power n_groups ->
  get_t_test_group_size_with_pairwise_correction
    variance delta alpha power n_groups
  = py_int (np_ceil
      (Fin (2 * variance * ((z_alpha alpha n_groups + z_power power)
                            * (z_alpha alpha n_groups + z_power power)))
       / Fin (delta * delta))%xf).
Proof.
  intros (Hv & [Ha0 Ha1] & [Hp0 Hp1] & Hn).
  pose proof (pairwise_count_ge_1 n_groups Hn) as Hc.
  pose proof (Rdiv_ge_1_bounds alpha _ Ha0 Hc) as Hadj.
  unfold get_t_test_group_size_with_pairwise_correction.
  rewrite !Rltb_true by lra.
  replace (2 <=? n_groups)%Z with true by (symmetry; apply Z.leb_le; lia).
  unfold assert. cbn [andb].
  rewrite comb_2 by lia.
  rewrite (Fdiv_fin alpha) by lra. rewrite Fdiv_fin by lra.
  unfold Fsub. cbn [Fopp Fadd].
  rewrite !norm_ppf_fin by lra.
  reflexivity.
Qed.

(** Once its assertions pass and [alpha] is positive, the second function
    is one division and one square. *)
Lemma proportion_after_assertions (p1 p2 alpha power : R) (n_groups : Z) :
  proportion_preconditions p1 p2 alpha power n_groups -> 0 < alpha ->
  get_proportion_test_group_size_with_pairwise_correction
    p1 p2 alpha power n_groups
  = py_int (np_ceil (Fsqr
      (Fin (z_alpha alpha n_groups * pooled_sd p1 p2
            + z_power power * unpooled_sd p1 p2)
       / Fin (Rabs (p2 - p1)))%xf)).
Proof.
  intros ([Hp10 Hp11] & [Hp20 Hp21] & [Hp0 Hp1] & Hn) Ha0.
  pose proof (pairwise_count_ge_1 n_groups Hn) as Hc.
  pose proof (Rdiv_ge_1_bounds alpha _ Ha0 Hc) as Hadj.
  unfold get_proportion_test_group_size_with_pairwise_correction.
  rewrite !Rltb_true by lra.
  replace (2 <=? n_groups)%Z with true by (symmetry; apply Z.leb_le; lia).
  unfold assert. cbn [andb].
  rewrite comb_2 by lia.
  unfold Fsub. cbn [Fopp Fadd].
  rewrite (Fdiv_fin alpha) by lra. rewrite !Fdiv_fin by lra.
  cbn [Fopp Fadd Fmul Fabs].
  rewrite !norm_ppf_fin by lra.
  rewrite !Fsqrt_fin by nra.
  reflexivity.
Qed.

(** ** Properties of the quantiles *)

Lemma ndtri_half (Q : normal_quantile) : ndtri (1 / 2) = 0.
Proof.
  assert (H : ndtri (1 - 1 / 2) = - ndtri (1 / 2)) by (apply (ndtri_odd Q); lra).
  replace (1 - 1 / 2) with (1 / 2) in H by lra. lra.
Qed.

Lemma z_alpha_pos (Q : normal_quantile) (alpha : R) (n_groups : Z) :
  0 < alpha < 1 -> (2 <= n_groups)%Z -> 0 < z_alpha alpha n_groups.
Proof.
  intros [Ha0 Ha1] Hn.
  pose proof (Rdiv_ge_1_bounds alpha _ Ha0 (pairwise_count_ge_1 _ Hn)) as Hadj.
  unfold z_alpha. rewrite <- (ndtri_half Q). apply (ndtri_incr Q); lra.
Qed.

Lemma z_power_above (Q : normal_quantile) (alpha power : R) (n_groups : Z) :
  0 < alpha < 1 -> alpha < power < 1 -> (2 <= n_groups)%Z ->
  - z_alpha alpha n_groups < z_power power.
Proof.
  intros [Ha0 Ha1] [Hp0 Hp1] Hn.
  pose proof (Rdiv_ge_1_bounds alpha _ Ha0 (pairwise_count_ge_1 _ Hn)) as Hadj.
  unfold z_alpha, z_power.
  rewrite <- (ndtri_odd Q) by lra. apply (ndtri_incr Q); lra.
Qed.

Lemma z_sum_pos (Q : normal_quantile) (alpha power : R) (n_groups : Z) :
  0 < alpha < 1 -> alpha < power < 1 -> (2 <= n_groups)%Z ->
  0 < z_alpha alpha n_groups + z_power power.
Proof.
  intros Ha Hp Hn. pose proof (z_power_above Q alpha power n_groups Ha Hp Hn). lra.
Qed.

(** ** Properties of the two standard deviations *)

Lemma unpooled_sd_pos (p1 p2 : R) :
  0 < p1 < 1 -> 0 < p2 < 1 -> 0 < unpooled_sd p1 p2.
Proof. intros H1 H2. unfold unpooled_sd. apply sqrt_lt_R0. nra. Qed.

Lemma unpooled_le_pooled (p1 p2 : R) :
  0 < p1 < 1 -> 0 < p2 < 1 -> unpooled_sd p1 p2 <= pooled_sd p1 p2.
Proof.
  intros H1 H2. unfold unpooled_sd, pooled_sd. apply sqrt_le_1_alt.
  replace (2 * ((p1 + p2) / 2) * (1 - (p1 + p2) / 2))
    with (p1 * (1 - p1) + p2 * (1 - p2) + (p1 - p2) ^ 2 / 2) by field.
  pose proof (pow2_ge_0 (p1 - p2)). lra.
Qed.

Lemma pooled_sd_pos (p1 p2 : R) :
  0 < p1 < 1 -> 0 < p2 < 1 -> 0 < pooled_sd p1 p2.
Proof.
  intros H1 H2. pose proof (unpooled_sd_pos p1 p2 H1 H2).
  pose proof (unpooled_le_pooled p1 p2 H1 H2). lra.
Qed.

(** The numerator of the proportion test is positive. *)
Lemma proportion_numerator_pos (Q : normal_quantile)
  (p1 p2 alpha power : R) (n_groups : Z) :
  proportion_preconditions p1 p2 alpha power n_groups -> 0 < alpha ->
  0 < z_alpha alpha n_groups * pooled_sd p1 p2
      + z_power power * unpooled_sd p1 p2.
Proof.
  intros (H1 & H2 & Hp & Hn) Ha0.
  assert (Ha : 0 < alpha < 1) by lra.
  pose proof (z_alpha_pos Q alpha n_groups Ha Hn) as Hza.
  pose proof (z_sum_pos Q alpha power n_groups Ha Hp Hn) as Hsum.
  pose proof (unpooled_sd_pos p1 p2 H1 H2) as HB.
  pose proof (unpooled_le_pooled p1 p2 H1 H2) as HAB.
  nra.
Qed.

(** ** When an assertion fails *)

Lemma py_int_not_assertion (x : xfloat) : py_int x <> Raise AssertionError.
Proof. destruct x; discriminate. Qed.

Lemma mean_rejects (variance delta alpha power : R) (n_groups : Z) :
  ~ mean_preconditions variance alpha power n_groups ->
  get_t_test_group_size_with_pairwise_correction
    variance delta alpha power n_groups = Raise AssertionError.
Proof.
  intros Hno. unfold get_t_test_group_size_with_pairwise_correction, assert.
  destruct (Rltb 0 variance) eqn:E1; [| reflexivity].
  destruct (Rltb 0 alpha) eqn:E2; [| reflexivity].
  destruct (Rltb alpha 1) eqn:E3; [| reflexivity].
  destruct (Rltb alpha power) eqn:E4; [| reflexivity].
  destruct (Rltb power 1) eqn:E5; [| reflexivity].
  destruct (2 <=? n_groups)%Z eqn:E6; [| reflexivity].
  exfalso. apply Hno. apply Rltb_iff in E1, E2, E3, E4, E5.
  apply Z.leb_le in E6. unfold mean_preconditions. auto.
Qed.

Lemma proportion_rejects (p1 p2 alpha power : R) (n_groups : Z) :
  ~ proportion_preconditions p1 p2 alpha power n_groups ->
  get_proportion_test_group_size_with_pairwise_correction
    p1 p2 alpha power n_groups = Raise AssertionError.
Proof.
  intros Hno.
  unfold get_proportion_test_group_size_with_pairwise_correction, assert.
  destruct (Rltb 0 p1) eqn:E1; [| reflexivity].
  destruct (Rltb p1 1) eqn:E2; [| reflexivity].
  destruct (Rltb 0 p2) eqn:E3; [| reflexivity].
  destruct (Rltb p2 1) eqn:E4; [| reflexivity].
  destruct (Rltb alpha power) eqn:E5; [| reflexivity].
  destruct (Rltb power 1) eqn:E6; [| reflexivity].
  destruct (2 <=? n_groups)%Z eqn:E7; [| reflexivity].
  exfalso. apply Hno. apply Rltb_iff in E1, E2, E3, E4, E5, E6.
  apply Z.leb_le in E7. unfold proportion_preconditions. auto.
Qed.

Lemma proportion_passes (p1 p2 alpha power : R) (n_groups : Z) :
  proportion_preconditions p1 p2 alpha power n_groups ->
  exists x : xfloat,
    get_proportion_test_group_size_with_pairwise_correction
      p1 p2 alpha power n_groups = py_int x.
Proof.
  intros ([Hp10 Hp11] & [Hp20 Hp21] & [Hp0 Hp1] & Hn).
  unfold get_proportion_test_group_size_with_pairwise_correction.
  rewrite !Rltb_true by lra.
  replace (2 <=? n_groups)%Z with true by (symmetry; apply Z.leb_le; lia).
  unfold assert. cbn [andb]. eexists. reflexivity.
Qed.

Lemma mean_preconditions_dec (variance alpha power : R) (n_groups : Z) :
  mean_preconditions variance alpha power n_groups
  \/ ~ mean_preconditions variance alpha power n_groups.
Proof.
  unfold mean_preconditions.
  destruct (Rlt_dec 0 variance), (Rlt_dec 0 alpha), (Rlt_dec alpha 1),
    (Rlt_dec alpha power), (Rlt_dec power 1), (Z_le_dec 2 n_groups);
    tauto.
Qed.

Lemma proportion_preconditions_dec (p1 p2 alpha power : R) (n_groups : Z) :
  proportion_preconditions p1 p2 alpha power n_groups
  \/ ~ proportion_preconditions p1 p2 alpha power n_groups.
Proof.
  unfold proportion_preconditions.
  destruct (Rlt_dec 0 p1), (Rlt_dec p1 1), (Rlt_dec 0 p2), (Rlt_dec p2 1),
    (Rlt_dec alpha power), (Rlt_dec power 1), (Z_le_dec 2 n_groups);
    tauto.
Qed.

(** ** The mean comparison *)

Lemma mean_numerator_pos (Q : normal_quantile)
  (variance alpha power : R) (n_groups : Z) :
  mean_preconditions variance alpha power n_groups ->
  0 < 2 * variance * ((z_alpha alpha n_groups + z_power power)
                      * (z_alpha alpha n_groups + z_power power)).
Proof.
  intros (Hv & Ha & Hp & Hn).
  pose proof (z_sum_pos Q alpha power n_groups Ha Hp Hn) as Hz.
  apply Rmult_lt_0_compat; [lra |]. now apply Rmult_lt_0_compat.
Qed.

(** In the exact reading, with a non-zero [delta] the first function
    returns the ceiling of the quotient. *)
Lemma mean_returns (variance delta alpha power : R) (n_groups : Z) :
  mean_preconditions variance alpha power n_groups -> delta <> 0 ->
  get_t_test_group_size_with_pairwise_correction
    variance delta alpha power n_groups
  = Ok (Rceil (2 * variance * ((z_alpha alpha n_groups + z_power power)
                               * (z_alpha alpha n_groups + z_power power))
               / (delta * delta))).
Proof.
  intros Hpre Hd. rewrite mean_after_assertions by assumption.
  rewrite Fdiv_fin by nra. apply py_int_np_ceil.
Qed.

(** With a zero [delta] the division gives [+inf], which [int] refuses. *)
Lemma mean_zero_delta (Q : normal_quantile)
  (variance alpha power : R) (n_groups : Z) :
  mean_preconditions variance alpha power n_groups ->
  get_t_test_group_size_with_pairwise_correction
    variance 0 alpha power n_groups
  = Raise OverflowError.
Proof.
  intros Hpre. rewrite mean_after_assertions by assumption.
  pose proof (mean_numerator_pos Q _ _ _ _ Hpre) as HN.
  cbn [Fdiv]. rewrite Rmult_0_l, Rsign_zero, (Rsign_pos _ HN). reflexivity.
Qed.

(** A division by zero never gives a finite value, so [int] raises. *)
Lemma int_of_division_by_zero (a : R) :
  py_int (np_ceil (Fin a / Fin 0)%xf) = Raise OverflowError
  \/ py_int (np_ceil (Fin a / Fin 0)%xf) = Raise ValueError.
Proof.
  cbn [Fdiv]. rewrite Rsign_zero. destruct (Rsign a); cbn; auto.
Qed.

Lemma int_of_squared_division_by_zero (a : R) :
  py_int (np_ceil (Fsqr (Fin a / Fin 0)%xf)) = Raise OverflowError
  \/ py_int (np_ceil (Fsqr (Fin a / Fin 0)%xf)) = Raise ValueError.
Proof.
  cbn [Fdiv]. rewrite Rsign_zero. destruct (Rsign a); cbn; auto.
Qed.

(** A call of the first function that returns has passed the assertions,
    has a non-zero [delta], and returns the ceiling of the quotient. *)
Lemma mean_returns_inv (variance delta alpha power : R) (n_groups k : Z) :
  get_t_test_group_size_with_pairwise_correction
    variance delta alpha power n_groups = Ok k ->
  mean_preconditions variance alpha power n_groups /\ delta <> 0
  /\ k = Rceil (2 * variance * ((z_alpha alpha n_groups + z_power power)
                                * (z_alpha alpha n_groups + z_power power))
                / (delta * delta)).
Proof.
  intros H.
  destruct (mean_preconditions_dec variance alpha power n_groups)
    as [Hpre | Hno].
  2:{ rewrite mean_rejects in H by assumption. discriminate. }
  destruct (Req_dec delta 0) as [-> | Hd].
  - rewrite mean_after_assertions in H by assumption.
    replace (0 * 0) with 0 in H by ring.
    destruct (int_of_division_by_zero
                (2 * variance * ((z_alpha alpha n_groups + z_power power)
                                 * (z_alpha alpha n_groups + z_power power))))
      as [E | E]; rewrite E in H; discriminate.
  - rewrite mean_returns in H by assumption.
    injection H as <-. auto.
Qed.

(** C3, amended: the mean comparison fails with the assertion error (the
    specification's InvalidParameter) exactly when variance is not
    positive, or alpha is not strictly between 0 and 1, or power is not
    strictly between alpha and 1, or n_groups < 2. *)
Theorem mean_invalid_parameter_iff (variance delta alpha power : R) (n_groups : Z) :
  get_t_test_group_size_with_pairwise_correction
    variance delta alpha power n_groups = Raise AssertionError
  <-> ~ 0 < variance \/ ~ 0 < alpha < 1 \/ ~ alpha < power < 1
      \/ (n_groups < 2)%Z.
Proof.
  destruct (mean_preconditions_dec variance alpha power n_groups)
    as [Hpre | Hno].
  - split.
    + rewrite (mean_after_assertions _ delta _ _ _ Hpre).
      intros H. now apply py_int_not_assertion in H.
    + destruct Hpre as (H1 & H2 & H3 & H4).
      intros [H | [H | [H | H]]]; [tauto | tauto | tauto | lia].
  - split; [| intros _; now apply mean_rejects].
    intros _. unfold mean_preconditions in Hno.
    destruct (Rlt_dec 0 variance), (Rlt_dec 0 alpha), (Rlt_dec alpha 1),
      (Rlt_dec alpha power), (Rlt_dec power 1), (Z_le_dec 2 n_groups);
      try tauto; try (right; right; right; lia).
Qed.

(** C9: [delta] is not validated.  With the other parameters valid, a zero
    [delta] passes every assertion, the computation divides by
    [delta ** 2 = 0], and the call ends in an error of the conversion to
    [int] (the overflow error for an infinite quotient, the value error
    for a [nan]), never in the assertion error and never in a value. *)
Theorem mean_delta_unchecked (variance alpha power : R) (n_groups : Z) :
  mean_preconditions variance alpha power n_groups ->
  get_t_test_group_size_with_pairwise_correction
    variance 0 alpha power n_groups = Raise OverflowError
  \/ get_t_test_group_size_with_pairwise_correction
       variance 0 alpha power n_groups = Raise ValueError.
Proof.
  intros Hpre. rewrite mean_after_assertions by assumption.
  replace (0 * 0) with 0 by ring. apply int_of_division_by_zero.
Qed.

(** C10: the mean comparison depends on [delta] only through its square:
    [delta] and [- delta] give the same result. *)
Theorem mean_delta_sign (variance delta alpha power : R) (n_groups : Z) :
  get_t_test_group_size_with_pairwise_correction
    variance (- delta) alpha power n_groups
  = get_t_test_group_size_with_pairwise_correction
      variance delta alpha power n_groups.
Proof.
  unfold get_t_test_group_size_with_pairwise_correction.
  cbn [Fsqr]. now rewrite Rmult_opp_opp.
Qed.

(** ** The proportion comparison *)

Lemma Rsign_Rabs (r : R) : Rsign (Rabs r) <> Neg.
Proof.
  pose proof (Rabs_pos r) as H. unfold Rsign.
  destruct (total_order_T (Rabs r) 0) as [[Hlt | Heq] | Hgt];
    try discriminate; lra.
Qed.

Lemma Fdiv_PInf_Rabs (r : R) : (PInf / Fin (Rabs r))%xf = PInf.
Proof.
  cbn [Fdiv]. pose proof (Rsign_Rabs r) as H.
  destruct (Rsign (Rabs r)); [contradiction | reflexivity | reflexivity].
Qed.

(** In the exact reading, with distinct proportions and a positive [alpha]
    the second function returns the ceiling of the squared quotient. *)
Lemma proportion_returns (p1 p2 alpha power : R) (n_groups : Z) :
  proportion_preconditions p1 p2 alpha power n_groups -> 0 < alpha ->
  p1 <> p2 ->
  get_proportion_test_group_size_with_pairwise_correction
    p1 p2 alpha power n_groups
  = Ok (Rceil
      ((z_alpha alpha n_groups * pooled_sd p1 p2
        + z_power power * unpooled_sd p1 p2) / Rabs (p2 - p1)
       * ((z_alpha alpha n_groups * pooled_sd p1 p2
           + z_power power * unpooled_sd p1 p2) / Rabs (p2 - p1)))).
Proof.
  intros Hpre Ha Hne. rewrite proportion_after_assertions by assumption.
  rewrite Fdiv_fin by (apply Rabs_no_R0; lra).
  cbn [Fsqr]. apply py_int_np_ceil.
Qed.

(** Equal proportions: the quotient is [+inf]. *)
Lemma proportion_equal_proportions (Q : normal_quantile)
  (p alpha power : R) (n_groups : Z) :
  proportion_preconditions p p alpha power n_groups -> 0 < alpha ->
  get_proportion_test_group_size_with_pairwise_correction
    p p alpha power n_groups
  = Raise OverflowError.
Proof.
  intros Hpre Ha. rewrite proportion_after_assertions by assumption.
  pose proof (proportion_numerator_pos Q _ _ _ _ _ Hpre Ha) as HN.
  replace (p - p) with 0 by ring. rewrite Rabs_R0.
  cbn [Fdiv]. rewrite Rsign_zero, (Rsign_pos _ HN). reflexivity.
Qed.

(** [alpha = 0] is not rejected: [norm.ppf(1)] is [+inf] and so is the
    group size. *)
Lemma proportion_zero_alpha (p1 p2 power : R) (n_groups : Z) :
  proportion_preconditions p1 p2 0 power n_groups ->
  get_proportion_test_group_size_with_pairwise_correction
    p1 p2 0 power n_groups
  = Raise OverflowError.
Proof.
  intros (H1 & H2 & Hp & Hn).
  pose proof (pairwise_count_ge_1 n_groups Hn) as Hc.
  pose proof (pooled_sd_pos p1 p2 H1 H2) as HA.
  unfold get_proportion_test_group_size_with_pairwise_correction.
  rewrite !Rltb_true by lra.
  replace (2 <=? n_groups)%Z with true by (symmetry; apply Z.leb_le; lia).
  unfold assert. cbn [andb].
  rewrite comb_2 by lia.
  unfold Fsub. cbn [Fopp Fadd].
  rewrite (Fdiv_fin 0) by lra. rewrite !Fdiv_fin by lra.
  cbn [Fopp Fadd Fmul Fabs].
  replace (1 + - (0 / pairwise_count n_groups / 2)) with 1 by (field; lra).
  rewrite norm_ppf_one, norm_ppf_fin by lra.
  rewrite !Fsqrt_fin by nra.
  cbn [Fmul].
  match goal with
  | |- context [scale_inf true (Rsign ?s)] => rewrite (Rsign_pos s HA)
  end.
  cbn [scale_inf Fadd]. rewrite Fdiv_PInf_Rabs. reflexivity.
Qed.

(** A negative [alpha] is not rejected either: [norm.ppf] is evaluated
    above 1 and gives [nan]. *)
Lemma proportion_negative_alpha (p1 p2 alpha power : R) (n_groups : Z) :
  proportion_preconditions p1 p2 alpha power n_groups -> alpha < 0 ->
  get_proportion_test_group_size_with_pairwise_correction
    p1 p2 alpha power n_groups
  = Raise ValueError.
Proof.
  intros (H1 & H2 & Hp & Hn) Ha.
  pose proof (pairwise_count_ge_1 n_groups Hn) as Hc.
  assert (Hadj : alpha / pairwise_count n_groups < 0).
  { unfold Rdiv. assert (0 < / pairwise_count n_groups)
      by (apply Rinv_0_lt_compat; lra). nra. }
  unfold get_proportion_test_group_size_with_pairwise_correction.
  rewrite !Rltb_true by lra.
  replace (2 <=? n_groups)%Z with true by (symmetry; apply Z.leb_le; lia).
  unfold assert. cbn [andb].
  rewrite comb_2 by lia.
  unfold Fsub. cbn [Fopp Fadd].
  rewrite (Fdiv_fin alpha) by lra. rewrite !Fdiv_fin by lra.
  cbn [Fopp Fadd Fmul Fabs].
  rewrite norm_ppf_above_one by lra.
  reflexivity.
Qed.

(** A call of the second function that returns has passed the assertions,
    has a positive [alpha] and distinct proportions, and returns the
    ceiling of the squared quotient. *)
Lemma proportion_returns_inv (p1 p2 alpha power : R) (n_groups k : Z) :
  get_proportion_test_group_size_with_pairwise_correction
    p1 p2 alpha power n_groups = Ok k ->
  proportion_preconditions p1 p2 alpha power n_groups /\ 0 < alpha
  /\ p1 <> p2
  /\ k = Rceil
           ((z_alpha alpha n_groups * pooled_sd p1 p2
             + z_power power * unpooled_sd p1 p2) / Rabs (p2 - p1)
            * ((z_alpha alpha n_groups * pooled_sd p1 p2
                + z_power power * unpooled_sd p1 p2) / Rabs (p2 - p1))).
Proof.
  intros H.
  destruct (proportion_preconditions_dec p1 p2 alpha power n_groups)
    as [Hpre | Hno].
  2:{ rewrite proportion_rejects in H by assumption. discriminate. }
  destruct (total_order_T alpha 0) as [[Ha | Ha] | Ha].
  - rewrite proportion_negative_alpha in H by assumption. discriminate.
  - subst alpha. rewrite proportion_zero_alpha in H by assumption.
    discriminate.
  - destruct (Req_dec p1 p2) as [He | Hne].
    + subst p2. rewrite proportion_after_assertions in H by assumption.
      replace (p1 - p1) with 0 in H by ring. rewrite Rabs_R0 in H.
      destruct (int_of_squared_division_by_zero
                  (z_alpha alpha n_groups * pooled_sd p1 p1
                   + z_power power * unpooled_sd p1 p1))
        as [E | E]; rewrite E in H; discriminate.
    + rewrite proportion_returns in H by assumption.
      injection H as <-. auto.
Qed.

(** C7: exchanging the two proportions does not change the result of the
    proportion comparison, whatever the arguments. *)
Theorem proportion_symmetric (p1 p2 alpha power : R) (n_groups : Z) :
  get_proportion_test_group_size_with_pairwise_correction
    p1 p2 alpha power n_groups
  = get_proportion_test_group_size_with_pairwise_correction
      p2 p1 alpha power n_groups.
Proof.
  unfold get_proportion_test_group_size_with_pairwise_correction, assert.
  unfold Fsub. cbn [Fopp Fadd Fabs Fmul].
  replace (Rabs (p1 + - p2)) with (Rabs (p2 + - p1))
    by (apply Rabs_minus_sym).
  rewrite (Rplus_comm p2 p1).
  rewrite (Rplus_comm (p2 * (1 + - p2)) (p1 * (1 + - p1))).
  destruct (Rltb 0 p1 && Rltb p1 1), (Rltb 0 p2 && Rltb p2 1);
    reflexivity.
Qed.

(** X1: the proportion comparison raises the assertion error exactly when
    p1 or p2 is not strictly inside (0,1), or power is not strictly
    between alpha and 1, or n_groups < 2.  alpha itself is only compared
    with power. *)
Theorem proportion_invalid_parameter_iff
  (p1 p2 alpha power : R) (n_groups : Z) :
  get_proportion_test_group_size_with_pairwise_correction
    p1 p2 alpha power n_groups = Raise AssertionError
  <-> ~ 0 < p1 < 1 \/ ~ 0 < p2 < 1 \/ ~ alpha < power < 1
      \/ (n_groups < 2)%Z.
Proof.
  destruct (proportion_preconditions_dec p1 p2 alpha power n_groups)
    as [Hpre | Hno].
  - split.
    + destruct (proportion_passes _ _ _ _ _ Hpre) as [x ->].
      intros H. now apply py_int_not_assertion in H.
    + destruct Hpre as (H1 & H2 & H3 & H4).
      intros [H | [H | [H | H]]]; [tauto | tauto | tauto | lia].
  - split; [| intros _; now apply proportion_rejects].
    intros _. unfold proportion_preconditions in Hno.
    destruct (Rlt_dec 0 p1), (Rlt_dec p1 1), (Rlt_dec 0 p2), (Rlt_dec p2 1),
      (Rlt_dec alpha power), (Rlt_dec power 1), (Z_le_dec 2 n_groups);
      try tauto; try (right; right; right; lia).
Qed.

(** X2: neither the sign of [alpha] nor the difference of the proportions
    is validated.  With the assertions passed, alpha <= 0 or p1 = p2 ends
    in an error of the conversion to [int] (the overflow error or the
    value error), never in the assertion error and never in a value. *)
Theorem proportion_unchecked (p1 p2 alpha power : R) (n_groups : Z) :
  proportion_preconditions p1 p2 alpha power n_groups ->
  alpha <= 0 \/ p1 = p2 ->
  get_proportion_test_group_size_with_pairwise_correction
    p1 p2 alpha power n_groups = Raise OverflowError
  \/ get_proportion_test_group_size_with_pairwise_correction
       p1 p2 alpha power n_groups = Raise ValueError.
Proof.
  intros Hpre Hcase.
  destruct (total_order_T alpha 0) as [[Ha | Ha] | Ha].
  - right. now apply proportion_negative_alpha.
  - left. subst alpha. now apply proportion_zero_alpha.
  - destruct Hcase as [Hle | He]; [lra |]. subst p2.
    rewrite proportion_after_assertions by assumption.
    replace (p1 - p1) with 0 by ring. rewrite Rabs_R0.
    apply int_of_squared_division_by_zero.
Qed.

(** ** Boundary values *)

(** Closes a goal [f ... = Raise AssertionError] once the failing test has
    been rewritten to [false]: whatever the earlier tests give, an
    assertion fails. *)
Ltac assertion_fails :=
  unfold assert; rewrite ?andb_false_r; cbn [andb];
  repeat match goal with
    | |- (if ?c then _ else _) = _ =>
        lazymatch c with
        | false => reflexivity
        | _ => destruct c; [| reflexivity]
        end
    end;
  try reflexivity.

(** The boundary values that both functions reject with an assertion
    error. *)
Lemma boundary_cases_rejected :
  (forall delta alpha power n_groups,
      get_t_test_group_size_with_pairwise_correction
        0 delta alpha power n_groups = Raise AssertionError)
  /\ (forall variance delta power n_groups,
      get_t_test_group_size_with_pairwise_correction
        variance delta 0 power n_groups = Raise AssertionError)
  /\ (forall variance delta power n_groups,
      get_t_test_group_size_with_pairwise_correction
        variance delta 1 power n_groups = Raise AssertionError)
  /\ (forall variance delta alpha power n_groups, power <= alpha ->
      get_t_test_group_size_with_pairwise_correction
        variance delta alpha power n_groups = Raise AssertionError)
  /\ (forall variance delta alpha power,
      get_t_test_group_size_with_pairwise_correction
        variance delta alpha power 1 = Raise AssertionError)
  /\ (forall p1 p2 power n_groups,
      get_proportion_test_group_size_with_pairwise_correction
        p1 p2 1 power n_groups = Raise AssertionError)
  /\ (forall p1 p2 alpha power n_groups, power <= alpha ->
      get_proportion_test_group_size_with_pairwise_correction
        p1 p2 alpha power n_groups = Raise AssertionError)
  /\ (forall p1 p2 alpha power,
      get_proportion_test_group_size_with_pairwise_correction
        p1 p2 alpha power 1 = Raise AssertionError)
  /\ (forall p2 alpha power n_groups,
      get_proportion_test_group_size_with_pairwise_correction
        0 p2 alpha power n_groups = Raise AssertionError)
  /\ (forall p2 alpha power n_groups,
      get_proportion_test_group_size_with_pairwise_correction
        1 p2 alpha power n_groups = Raise AssertionError).
Proof.
  repeat split; intros;
    unfold get_t_test_group_size_with_pairwise_correction,
      get_proportion_test_group_size_with_pairwise_correction.
  - rewrite (Rltb_false 0 0) by lra. assertion_fails.
  - rewrite (Rltb_false 0 0) by lra. assertion_fails.
  - rewrite (Rltb_false 1 1) by lra. assertion_fails.
  - rewrite (Rltb_false alpha power) by lra. assertion_fails.
  - change (2 <=? 1)%Z with false. assertion_fails.
  - destruct (Rlt_dec 1 power) as [H | H].
    + rewrite (Rltb_false power 1) by lra. assertion_fails.
    + rewrite (Rltb_false 1 power) by lra. assertion_fails.
  - rewrite (Rltb_false alpha power) by lra. assertion_fails.
  - change (2 <=? 1)%Z with false. assertion_fails.
  - rewrite (Rltb_false 0 0) by lra. assertion_fails.
  - rewrite (Rltb_false 1 1) by lra. assertion_fails.
Qed.

(** C4: the boundary value the proportion comparison does not reject.  At
    p1 = 0.1, p2 = 0.2, alpha = 0, power = 0.8, n_groups = 2 every
    assertion passes and the call ends in the overflow error of [int], not
    in the assertion error. *)
Theorem proportion_zero_alpha_not_rejected :
  get_proportion_test_group_size_with_pairwise_correction
    (1 / 10) (2 / 10) 0 (8 / 10) 2
  = Raise OverflowError.
Proof.
  apply proportion_zero_alpha. unfold proportion_preconditions.
  repeat split; try lra; lia.
Qed.

(** ** The sign of the result *)

Lemma Rceil_nonneg (r : R) : 0 <= r -> (0 <= Rceil r)%Z.
Proof. intros H. rewrite <- (Rceil_IZR 0). now apply Rceil_le. Qed.

(** C5, amended: whenever either function returns, its assertions have
    passed, the difference it divides by ([delta], or [p2 - p1]) is not
    zero, for the proportion comparison [alpha] is positive, and the
    integer it returns is not negative. *)
Theorem group_size_nonnegative :
  (forall variance delta alpha power n_groups k,
      get_t_test_group_size_with_pairwise_correction
        variance delta alpha power n_groups = Ok k ->
      mean_preconditions variance alpha power n_groups /\ delta <> 0
      /\ (0 <= k)%Z)
  /\ (forall p1 p2 alpha power n_groups k,
      get_proportion_test_group_size_with_pairwise_correction
        p1 p2 alpha power n_groups = Ok k ->
      proportion_preconditions p1 p2 alpha power n_groups /\ 0 < alpha
      /\ p1 <> p2 /\ (0 <= k)%Z).
Proof.
  split.
  - intros variance delta alpha power n_groups k H.
    apply mean_returns_inv in H. destruct H as (Hpre & Hd & ->).
    split; [assumption | split; [assumption |]].
    destruct Hpre as (Hv & _).
    apply Rceil_nonneg.
    assert (Hd2 : 0 < delta * delta) by nra.
    pose proof (Rle_0_sqr (z_alpha alpha n_groups + z_power power)) as Hs.
    unfold Rsqr in Hs.
    unfold Rdiv. apply Rmult_le_pos.
    + apply Rmult_le_pos; lra.
    + left. now apply Rinv_0_lt_compat.
  - intros p1 p2 alpha power n_groups k H.
    apply proportion_returns_inv in H. destruct H as (Hpre & Ha & Hne & ->).
    repeat (split; [assumption |]).
    apply Rceil_nonneg.
    match goal with |- 0 <= ?q * ?q => exact (Rle_0_sqr q) end.
Qed.

(** ** The concrete scenarios *)

Lemma pairwise_count_2 : pairwise_count 2 = 1.
Proof. reflexivity. Qed.

Lemma pairwise_count_4 : pairwise_count 4 = 6.
Proof. reflexivity. Qed.

Lemma z_alpha_05_2 : z_alpha (5 / 100) 2 = ndtri (975 / 1000).
Proof. unfold z_alpha. rewrite pairwise_count_2. f_equal. lra. Qed.

Lemma z_alpha_05_4 : z_alpha (5 / 100) 4 = ndtri (239 / 240).
Proof. unfold z_alpha. rewrite pairwise_count_4. f_equal. lra. Qed.

Lemma standard_mean_preconditions (n_groups : Z) :
  (2 <= n_groups)%Z -> mean_preconditions 4 (5 / 100) (8 / 10) n_groups.
Proof. intros H. unfold mean_preconditions. repeat split; try lra; lia. Qed.

(** C8: with the table's quantiles, variance = 4, delta = 1, alpha = 0.05
    and power = 0.8 give exactly 63 for two groups and, for four groups,
    97, which is more than 63. *)
Theorem mean_concrete_scenarios (T : normal_table) :
  get_t_test_group_size_with_pairwise_correction 4 1 (5 / 100) (8 / 10) 2
  = Ok 63
  /\ get_t_test_group_size_with_pairwise_correction 4 1 (5 / 100) (8 / 10) 4
     = Ok 97
  /\ (63 < 97)%Z.
Proof.
  destruct T as [[T80 T80'] [T975 T975'] [T239 T239'] _ _].
  repeat split.
  - rewrite mean_returns by (try apply standard_mean_preconditions; lra || lia).
    f_equal. apply Rceil_unique.
    rewrite z_alpha_05_2. unfold z_power. split; nra.
  - rewrite mean_returns by (try apply standard_mean_preconditions; lra || lia).
    f_equal. apply Rceil_unique.
    rewrite z_alpha_05_4. unfold z_power. split; nra.
Qed.

(** ** Monotonicity *)





(** X8: for two calls of the mean comparison that both return and differ
    in the variance only, the larger variance does not give the smaller
    size. *)
Theorem mean_monotone_variance
  (variance variance' delta alpha power : R) (n_groups k k' : Z) :
  get_t_test_group_size_with_pairwise_correction
    variance delta alpha power n_groups = Ok k ->
  get_t_test_group_size_with_pairwise_correction
    variance' delta alpha power n_groups = Ok k' ->
  variance <= variance' -> (k <= k')%Z.
Proof.
  intros H H' Hvv. apply mean_returns_inv in H, H'.
  destruct H as ((Hv & _) & Hd & ->). destruct H' as (_ & _ & ->).
  apply Rceil_le.
  assert (Hd2 : 0 < delta * delta) by nra.
  pose proof (Rle_0_sqr (z_alpha alpha n_groups + z_power power)) as Hs.
  unfold Rsqr in Hs.
  unfold Rdiv. apply Rmult_le_compat_r.
  - left. now apply Rinv_0_lt_compat.
  - apply Rmult_le_compat_r; lra.
Qed.

(** ** Where the size grows with the difference of the proportions *)



Lemma Rceil_le_IZR (x : R) (z : Z) : x <= IZR z -> (Rceil x <= z)%Z.
Proof. intros H. rewrite <- (Rceil_IZR z). now apply Rceil_le. Qed.





(** ** The correction as a change of level *)



End Experimentation.

(** ** The interpolated table is a quantile function with the table's values *)

(** Case analysis on nested [Rmax], innermost first. *)
Ltac case_Rmax :=
  unfold Rmax;
  repeat match goal with
    | |- context [Rle_dec ?a ?b] =>
        match b with
        | context [Rle_dec _ _] => fail 1
        | _ => destruct (Rle_dec a b)
        end
    end.

Lemma Rmax_strict (a b c d : R) : a < c -> b < d -> Rmax a b < Rmax c d.
Proof. intros H1 H2. case_Rmax; lra. Qed.

Lemma ndtri_upper_incr (p q : R) : p < q -> ndtri_upper p < ndtri_upper q.
Proof.
  intros H. unfold ndtri_upper. repeat apply Rmax_strict; lra.
Qed.

Lemma ndtri_upper_half : ndtri_upper (1 / 2) = 0.
Proof. unfold ndtri_upper. case_Rmax; lra. Qed.

Lemma ndtri_table_quantile : normal_quantile ndtri_table.
Proof.
  split.
  - intros p q Hp Hpq Hq. unfold ndtri_table.
    destruct (Rlt_dec p (1 / 2)) as [Hp2 | Hp2];
      destruct (Rlt_dec q (1 / 2)) as [Hq2 | Hq2].
    + assert (H := ndtri_upper_incr (1 - q) (1 - p)). lra.
    + assert (H1 := ndtri_upper_incr (1 / 2) (1 - p)).
      rewrite ndtri_upper_half in H1.
      destruct (Req_dec q (1 / 2)) as [-> | Hne].
      * rewrite ndtri_upper_half. lra.
      * assert (H2 := ndtri_upper_incr (1 / 2) q).
        rewrite ndtri_upper_half in H2. lra.
    + lra.
    + apply ndtri_upper_incr. lra.
  - intros p Hp. unfold ndtri_table.
    destruct (Rlt_dec (1 - p) (1 / 2)) as [H1 | H1];
      destruct (Rlt_dec p (1 / 2)) as [H2 | H2]; try lra.
    + replace (1 - (1 - p)) with p by lra. reflexivity.
    + replace (1 - p) with (1 / 2) by lra. replace p with (1 / 2) by lra.
      rewrite ndtri_upper_half. lra.
Qed.

Lemma ndtri_table_table : normal_table ndtri_table.
Proof.
  split; unfold ndtri_table;
    match goal with |- context [Rlt_dec ?a ?b] => destruct (Rlt_dec a b) end;
    try lra; unfold ndtri_upper; case_Rmax; lra.
Qed.


(** ** The theorems at concrete arguments *)

Lemma table_mean_preconditions :
  mean_preconditions 4 (5 / 100) (8 / 10) 2.
Proof. unfold mean_preconditions. repeat split; try lra; lia. Qed.

Lemma table_proportion_preconditions :
  proportion_preconditions (1 / 10) (2 / 10) (5 / 100) (8 / 10) 2.
Proof. unfold proportion_preconditions. repeat split; try lra; lia. Qed.

(** Counterexample to C3 as stated: variance = 4, alpha = 0.05, power = 0.8 and two groups
    violate none of its four conditions, yet with delta = 0 the mean
    comparison returns no value. *)
Lemma mean_valid_but_no_value :
  mean_preconditions 4 (5 / 100) (8 / 10) 2
  /\ get_t_test_group_size_with_pairwise_correction
       ndtri_table 4 0 (5 / 100) (8 / 10) 2
     = Raise OverflowError.
Proof.
  split; [exact table_mean_preconditions |].
  apply mean_zero_delta;
    [exact ndtri_table_quantile | exact table_mean_preconditions].
Qed.

Lemma mean_delta_unchecked_witness :
  get_t_test_group_size_with_pairwise_correction
    ndtri_table 4 0 (5 / 100) (8 / 10) 2 = Raise OverflowError
  \/ get_t_test_group_size_with_pairwise_correction
       ndtri_table 4 0 (5 / 100) (8 / 10) 2 = Raise ValueError.
Proof.
  apply (mean_delta_unchecked ndtri_table). exact table_mean_preconditions.
Defined.

Lemma group_size_nonnegative_witness :
  exists k : Z,
    get_t_test_group_size_with_pairwise_correction
      ndtri_table 4 1 (5 / 100) (8 / 10) 2 = Ok k
    /\ mean_preconditions 4 (5 / 100) (8 / 10) 2 /\ 1 <> 0 /\ (0 <= k)%Z.
Proof.
  assert (Hd : 1 <> 0) by lra.
  pose proof (mean_returns ndtri_table 4 1 (5 / 100) (8 / 10) 2
                table_mean_preconditions Hd) as H.
  eexists. split; [exact H |].
  exact (proj1 (group_size_nonnegative ndtri_table) _ _ _ _ _ _ H).
Defined.

(** Counterexample to C5 as stated: a zero [delta], and two equal proportions, meet its
    conditions and neither call returns an integer. *)
Lemma group_size_not_returned :
  (mean_preconditions 1 (5 / 100) (8 / 10) 3
   /\ get_t_test_group_size_with_pairwise_correction
        ndtri_table 1 0 (5 / 100) (8 / 10) 3
      = Raise OverflowError)
  /\ (proportion_preconditions (1 / 2) (1 / 2) (5 / 100) (8 / 10) 2
      /\ get_proportion_test_group_size_with_pairwise_correction
           ndtri_table (1 / 2) (1 / 2) (5 / 100) (8 / 10) 2
         = Raise OverflowError).
Proof.
  assert (Hm : mean_preconditions 1 (5 / 100) (8 / 10) 3)
    by (unfold mean_preconditions; repeat split; lra || lia).
  assert (Hp : proportion_preconditions (1 / 2) (1 / 2) (5 / 100) (8 / 10) 2)
    by (unfold proportion_preconditions; repeat split; lra || lia).
  repeat split; try apply Hm; try apply Hp.
  - apply mean_zero_delta; [exact ndtri_table_quantile | exact Hm].
  - apply proportion_equal_proportions;
      [exact ndtri_table_quantile | exact Hp | lra].
Qed.



Lemma mean_concrete_scenarios_witness :
  get_t_test_group_size_with_pairwise_correction
    ndtri_table 4 1 (5 / 100) (8 / 10) 2 = Ok 63
  /\ get_t_test_group_size_with_pairwise_correction
       ndtri_table 4 1 (5 / 100) (8 / 10) 4 = Ok 97
  /\ (63 < 97)%Z.
Proof. exact (mean_concrete_scenarios ndtri_table ndtri_table_table). Defined.

(** ** The further properties at concrete arguments *)

Lemma proportion_unchecked_witness :
  get_proportion_test_group_size_with_pairwise_correction
    ndtri_table (1 / 10) (2 / 10) 0 (8 / 10) 2 = Raise OverflowError
  \/ get_proportion_test_group_size_with_pairwise_correction
       ndtri_table (1 / 10) (2 / 10) 0 (8 / 10) 2 = Raise ValueError.
Proof.
  apply (proportion_unchecked ndtri_table).
  - unfold proportion_preconditions. repeat split; lra || lia.
  - left. lra.
Defined.


Lemma mean_monotone_variance_witness :
  exists k k' : Z,
    get_t_test_group_size_with_pairwise_correction
      ndtri_table 4 1 (5 / 100) (8 / 10) 2 = Ok k
    /\ get_t_test_group_size_with_pairwise_correction
         ndtri_table 9 1 (5 / 100) (8 / 10) 2 = Ok k'
    /\ (k <= k')%Z.
Proof.
  assert (Hd : 1 <> 0) by lra.
  assert (Hpre : mean_preconditions 9 (5 / 100) (8 / 10) 2)
    by (unfold mean_preconditions; repeat split; lra || lia).
  pose proof (mean_returns ndtri_table 4 1 (5 / 100) (8 / 10) 2
                table_mean_preconditions Hd) as H.
  pose proof (mean_returns ndtri_table 9 1 (5 / 100) (8 / 10) 2 Hpre Hd)
    as H'.
  do 2 eexists. split; [exact H | split; [exact H' |]].
  apply (mean_monotone_variance ndtri_table _ _ _ _ _ _ _ _ H H'). lra.
Defined.
